(** * Monte Carlo sampling worker: [workers.py]

    A shallow embedding of

<<
    def worker(iterations):
        simulations = np.linalg.norm(np.random.rand(iterations,2), axis = 1)
        return np.count_nonzero(simulations < 1)
>>

    The function is three numpy calls and one comparison.  Each of them is
    embedded as the array operation numpy performs:

    - [np.random.rand(d0, d1)] validates the shape, allocates a C-ordered
      buffer of [d0 * d1] doubles and fills it front to back, one call of the
      bit generator's [next_double] per cell;
    - [np.linalg.norm(x, axis=1)] squares the whole array, reduces it with
      [add] along the last axis and takes the square root of every entry;
    - [simulations < 1] builds a Boolean mask and [np.count_nonzero] counts
      its [True] cells.

    numpy's float64 is IEEE 754 binary64; it is embedded as Rocq's primitive
    [float], whose operations are specified by [SpecFloat] at precision 53.
    Python's unbounded [int] is [Z].  The generator is explicit state; the
    host's memory and index-width limits are not modelled. *)

From Stdlib Require Import ZArith List Bool Lia.
From Stdlib Require Import Floats Uint63.
From Stdlib Require Import Reals Lra.
Import ListNotations.

Set Implicit Arguments.

(** ** Python values, exceptions and outcomes *)

(** The values [iterations] ranges over: a Python [int] or a Python [float]. *)
Inductive pyobj : Type :=
  | PyInt (n : Z)
  | PyFloat (f : float).

(** The exceptions numpy raises on a bad shape argument. *)
Inductive exn : Type :=
  | TypeError    (* 'float' object cannot be interpreted as an integer *)
  | ValueError.  (* negative dimensions are not allowed *)

Inductive outcome (A : Type) : Type :=
  | Return (a : A)
  | Raise (e : exn).
Arguments Return {A} a.
Arguments Raise {A} e.

(** Both exceptions report an argument the callee cannot accept. *)
Definition invalid_argument (e : exn) : bool :=
  match e with
  | TypeError | ValueError => true
  end.

Definition raises_invalid_argument {A} (o : outcome A) : bool :=
  match o with
  | Return _ => false
  | Raise e => invalid_argument e
  end.

(** ** Computations over the generator state

    A computation reads and advances the generator and either returns or
    raises; on a raise the state is the one reached when the exception left. *)
Module Gen.

Definition M (G A : Type) : Type := G -> outcome A * G.

Definition ret {G A} (a : A) : M G A := fun g => (Return a, g).

Definition raise {G A} (e : exn) : M G A := fun g => (Raise e, g).

Definition bind {G A B} (m : M G A) (k : A -> M G B) : M G B :=
  fun g =>
    match m g with
    | (Return a, g') => k a g'
    | (Raise e, g') => (Raise e, g')
    end.

(** A pure step that may raise. *)
Definition lift {G A} (o : outcome A) : M G A := fun g => (o, g).

End Gen.

Declare Scope gen_scope.
Delimit Scope gen_scope with gen.
Notation "x <- m ;; k" := (Gen.bind m (fun x => k))
  (at level 61, m at next level, right associativity) : gen_scope.
Local Open Scope gen_scope.

(** ** The bit generator interface

    numpy's [bitgen_t] exposes [next_double]; everything [np.random.rand]
    consumes goes through it. *)
Class BitGenerator (G : Type) : Type :=
  next_double : G -> float * G.

(** The [i]-th draw of the stream that starts in state [g], and the state
    after [i] draws. *)
Fixpoint advance {G} `{BitGenerator G} (i : nat) (g : G) : G :=
  match i with
  | O => g
  | S i' => advance i' (snd (next_double g))
  end.

Definition nth_draw {G} `{BitGenerator G} (g : G) (i : nat) : float :=
  fst (next_double (advance i g)).

(** ** Arrays *)

(** A two-dimensional C-contiguous array of doubles. *)
Record array2d : Type := mkArray2d {
  nrows : nat;
  ncols : nat;
  buf : list float
}.

(** Row [i] of the buffer. *)
Definition row (a : array2d) (i : nat) : list float :=
  firstn (ncols a) (skipn (i * ncols a) (buf a)).

Definition rows (a : array2d) : list (list float) :=
  map (row a) (seq 0 (nrows a)).

(** ** numpy *)
Module np.

(** [operator.index]: what numpy applies to every entry of a shape. *)
Definition operator_index (o : pyobj) : outcome Z :=
  match o with
  | PyInt n => Return n
  | PyFloat _ => Raise TypeError
  end.

(** The shape converter followed by the allocator's sign check. *)
Definition shape2 (d0 d1 : pyobj) : outcome (nat * nat) :=
  match operator_index d0 with
  | Raise e => Raise e
  | Return n0 =>
      match operator_index d1 with
      | Raise e => Raise e
      | Return n1 =>
          if ((n0 <? 0) || (n1 <? 0))%Z then Raise ValueError
          else Return (Z.to_nat n0, Z.to_nat n1)
      end
  end.

Section Random.
Context {G : Type} `{BitGenerator G}.

(** [for i in range(cnt): out[i] = next_double(state)] *)
Fixpoint double_fill (cnt : nat) : Gen.M G (list float) :=
  match cnt with
  | O => Gen.ret []
  | S cnt' =>
      fun g =>
        let (x, g1) := next_double g in
        (xs <- double_fill cnt' ;; Gen.ret (x :: xs)) g1
  end.

(** [np.random.rand(d0, d1)] is [random_sample(size=(d0, d1))]: the
    output array is allocated (and the shape rejected) first, then
    filled. *)
Definition rand (d0 d1 : pyobj) : Gen.M G array2d :=
  shp <- Gen.lift (shape2 d0 d1) ;;
  data <- double_fill (fst shp * snd shp) ;;
  Gen.ret (mkArray2d (fst shp) (snd shp) data).
End Random.

(** [x * x] on a real array, cell by cell. *)
Definition square (a : array2d) : array2d :=
  mkArray2d (nrows a) (ncols a) (map (fun v => v * v)%float (buf a)).

(** [add.reduce] of one lane: the first cell, then the others added
    from left to right; the identity on an empty lane. *)
Definition add_reduce_lane (l : list float) : float :=
  match l with
  | [] => 0%float
  | v :: l' => fold_left PrimFloat.add l' v
  end.

(** [add.reduce(s, axis=1)] *)
Definition add_reduce_axis1 (a : array2d) : list float :=
  map add_reduce_lane (rows a).

Module linalg.
(** [norm(x, axis=1)] with the default order:
    [sqrt(add.reduce((x.conj() * x).real, axis=1))]. *)
Definition norm_axis1 (x : array2d) : list float :=
  map PrimFloat.sqrt (add_reduce_axis1 (square x)).
End linalg.

(** [a < c] for a scalar [c]: the Boolean mask. *)
Definition less (a : list float) (c : float) : list bool :=
  map (fun v => v <? c)%float a.

Definition count_nonzero (mask : list bool) : Z :=
  Z.of_nat (length (filter (fun b => b) mask)).

End np.

(** ** The worker *)
Section Worker.
Context {G : Type} `{BitGenerator G}.

Definition worker (iterations : pyobj) : Gen.M G Z :=
  x <- np.rand iterations (PyInt 2) ;;
  let simulations := np.linalg.norm_axis1 x in
  Gen.ret (np.count_nonzero (np.less simulations 1)).

End Worker.

(** ** The specification's reading of one invocation

    Sample [i] is the pair of consecutive draws [2i] and [2i+1]; its distance
    from the origin is [sqrt(x*x + y*y)] in binary64; it is inside when that
    distance is strictly below [1]. *)
Definition distance (p : float * float) : float :=
  PrimFloat.sqrt (fst p * fst p + snd p * snd p)%float.

Definition inside (p : float * float) : bool :=
  (distance p <? 1)%float.

Section Samples.
Context {G : Type} `{BitGenerator G}.

Definition sample (g : G) (i : nat) : float * float :=
  (nth_draw g (2 * i), nth_draw g (2 * i + 1)).

Definition samples (n : nat) (g : G) : list (float * float) :=
  map (sample g) (seq 0 n).

(** The point-by-point loop the specification describes: draw [x], draw
    [y], test, bump the counter. *)
Fixpoint count_inside_loop (n : nat) (g : G) : nat * G :=
  match n with
  | O => (O, g)
  | S n' =>
      let (x, g1) := next_double g in
      let (y, g2) := next_double g1 in
      let (c, g') := count_inside_loop n' g2 in
      ((if inside (x, y) then S c else c), g')
  end.
End Samples.

(** Which arguments the specification accepts. *)
Definition valid_iterations (iterations : pyobj) : bool :=
  match iterations with
  | PyInt n => (0 <=? n)%Z
  | PyFloat _ => false
  end.

(** ** Sources used to run the model *)

(** A source stuck on one value; it counts the draws taken from it. *)
Record fixed_source : Type := mkFixed {
  fixed_value : float;
  fixed_taken : nat
}.

#[export] Instance fixed_source_gen : BitGenerator fixed_source :=
  fun s => (fixed_value s, mkFixed (fixed_value s) (S (fixed_taken s))).

(** A source that replays a tape of values, then zeros. *)
Record tape_source : Type := mkTape {
  tape : list float;
  tape_pos : nat
}.

#[export] Instance tape_source_gen : BitGenerator tape_source :=
  fun s => (nth (tape_pos s) (tape s) 0%float, mkTape (tape s) (S (tape_pos s))).

(** ** numpy's default generator

    [np.random.rand] draws from the module-level [RandomState], whose bit
    generator is MT19937.  Its [next_double] takes two 32-bit outputs of the
    twister:

<<
    static inline double mt19937_next_double(mt19937_state *state) {
      int32_t a = mt19937_next(state) >> 5, b = mt19937_next(state) >> 6;
      return (a * 67108864.0 + b) / 9007199254740992.0;
    }
>>

    The twister itself stays abstract: any source of words, read as
    [uint32_t]. *)
Class WordGenerator (W : Type) : Type :=
  next_uint32 : W -> Z * W.

Definition uint32 (w : Z) : Z := (w mod 2 ^ 32)%Z.

(** The conversion of a non-negative [int32_t] to [double]. *)
Definition double_of_int (z : Z) : float :=
  PrimFloat.of_uint63 (Uint63.of_Z z).

Definition double_of_words (wa wb : Z) : float :=
  let a := Z.shiftr (uint32 wa) 5 in
  let b := Z.shiftr (uint32 wb) 6 in
  ((double_of_int a * 67108864 + double_of_int b) / 9007199254740992)%float.

Definition mt19937_next_double {W} `{WordGenerator W} (s : W) : float * W :=
  let (wa, s1) := next_uint32 s in
  let (wb, s2) := next_uint32 s1 in
  (double_of_words wa wb, s2).

#[export] Instance mt19937_bitgen {W} `{WordGenerator W} : BitGenerator W :=
  mt19937_next_double.

(** A word source that replays a tape of words, then zeros. *)
Record word_tape : Type := mkWords {
  words : list Z;
  words_pos : nat
}.

#[export] Instance word_tape_gen : WordGenerator word_tape :=
  fun s => (nth (words_pos s) (words s) 0%Z, mkWords (words s) (S (words_pos s))).

(** Concrete sources the statements below are run on. *)
Definition demo_tape : tape_source :=
  mkTape [0.5; 0.5; 0.75; 0.75; 0.25; 0.5]%float 0.

Definition zero_words : word_tape := mkWords [] 0.

(** ** Exact values of binary64 numbers *)

(** The real number a finite binary64 number stands for. *)
Definition SF2R (x : spec_float) : R :=
  match x with
  | S754_finite s m e => (IZR (cond_Zopp s (Zpos m)) * powerRZ 2 e)%R
  | _ => 0%R
  end.

Definition value (x : float) : R := SF2R (Prim2SF x).

Definition is_finite (x : float) : bool :=
  match Prim2SF x with
  | S754_zero _ | S754_finite _ _ _ => true
  | S754_infinity _ | S754_nan => false
  end.

Section RoundingModel.
Local Open Scope Z_scope.

(** [M / 2^n] rounded to nearest, ties to even. *)
Definition rne (M n : Z) : Z :=
  let q := M / 2 ^ n in
  match (2 * (M mod 2 ^ n) ?= 2 ^ n) with
  | Lt => q
  | Eq => if Z.even q then q else q + 1
  | Gt => q + 1
  end.

(** [M] of [d >= 53] digits at exponent [ex], rounded to 53 digits:
    mantissa and exponent, renormalised when the mantissa carries. *)
Definition round53 (M ex d : Z) : Z * Z :=
  let n := d - 53 in
  let q := rne M n in
  if q =? 2 ^ 53 then (2 ^ 52, ex + n + 1) else (q, ex + n).

(** [rec] is what [k] right shifts leave of an exact [M]: the quotient,
    the bit shifted out last, and whether anything below it was set. *)
Definition shifted (M k : Z) (rec : shr_record) : Prop :=
  0 <= shr_m rec /\
  ((k = 0 /\ rec = Build_shr_record M false false) \/
   (1 <= k /\ exists t, 0 <= t < 2 ^ (k - 1) /\
      M = shr_m rec * 2 ^ k + Z.b2z (shr_r rec) * 2 ^ (k - 1) + t /\
      shr_s rec = negb (t =? 0))).

(** The binary64 number [k * 2^e]. *)
Definition dyadic (k e : Z) : spec_float :=
  binary_normalize prec emax k e false.

(** Zero, or a positive normal number whose exponent lies in [lo, hi]. *)
Definition below (lo hi : Z) (x : spec_float) : Prop :=
  x = S754_zero false \/
  exists m e, x = S754_finite false m e
              /\ Zpos (digits2_pos m) = 53 /\ lo <= e <= hi.

(** Zero, or a positive normal number not above [0x1.6a09e667f3bccp+0],
    the largest binary64 number whose square is below [2]. *)
Definition below_sqrt2 (x : spec_float) : Prop :=
  x = S754_zero false \/
  exists m e, x = S754_finite false m e
              /\ Zpos (digits2_pos m) = 53 /\ -200 <= e
              /\ (e <= -53 \/ (e = -52 /\ Zpos m <= 6369051672525772)).
End RoundingModel.

(** A double on the grid of the generator: [k / 2^53] with [0 <= k < 2^53]. *)
Definition unit_grid (x : float) : Prop :=
  exists k : Z, (0 <= k < 2 ^ 53)%Z /\ Prim2SF x = dyadic k (-53).


(** * Properties *)

(** ** The filled buffer and its rows *)
Section BufferFacts.
Context {G : Type} `{BitGenerator G}.

Lemma nth_draw_S (g : G) (i : nat) :
  nth_draw g (S i) = nth_draw (snd (next_double g)) i.
Proof. reflexivity. Qed.

Lemma advance_add (i j : nat) (g : G) :
  advance (i + j) g = advance j (advance i g).
Proof.
  revert g; induction i as [|i IH]; intros g; simpl; [reflexivity | apply IH].
Qed.

(** Filling [cnt] cells takes the next [cnt] draws, in order, and leaves
    the generator [cnt] draws further. *)
Lemma double_fill_spec (cnt : nat) (g : G) :
  np.double_fill cnt g = (Return (map (nth_draw g) (seq 0 cnt)), advance cnt g).
Proof.
  revert g; induction cnt as [|cnt IH]; intros g.
  - reflexivity.
  - cbn [np.double_fill advance].
    destruct (next_double g) as [x g1] eqn:E.
    unfold Gen.bind, Gen.ret. rewrite IH.
    cbn [seq map snd]. rewrite <- seq_shift, map_map.
    f_equal. f_equal. f_equal.
    + unfold nth_draw; cbn [advance]. now rewrite E.
    + apply map_ext; intros i. rewrite nth_draw_S, E. reflexivity.
Qed.

Lemma rand_valid (n : Z) (g : G) :
  (0 <= n)%Z ->
  np.rand (PyInt n) (PyInt 2) g =
    (Return (mkArray2d (Z.to_nat n) 2
               (map (nth_draw g) (seq 0 (Z.to_nat n * 2)))),
     advance (Z.to_nat n * 2) g).
Proof.
  intros Hn. unfold np.rand, Gen.bind, Gen.lift, np.shape2; cbn [np.operator_index].
  destruct (n <? 0)%Z eqn:E; [apply Z.ltb_lt in E; lia |].
  cbn [orb Z.ltb Z.compare fst snd].
  change (Z.to_nat 2) with 2%nat.
  rewrite double_fill_spec. reflexivity.
Qed.

Lemma rand_negative (n : Z) (g : G) :
  (n < 0)%Z -> np.rand (PyInt n) (PyInt 2) g = (Raise ValueError, g).
Proof.
  intros Hn. unfold np.rand, Gen.bind, Gen.lift, np.shape2; cbn [np.operator_index].
  apply Z.ltb_lt in Hn. rewrite Hn. reflexivity.
Qed.

Lemma rand_float (f : float) (g : G) :
  np.rand (PyFloat f) (PyInt 2) g = (Raise TypeError, g).
Proof. reflexivity. Qed.
End BufferFacts.

(** Row [i] of an [n] by [2] array holds cells [2i] and [2i+1]. *)
Lemma row_pair (f : nat -> float) (n i : nat) :
  (i < n)%nat ->
  row (mkArray2d n 2 (map f (seq 0 (n * 2)))) i = [f (2 * i)%nat; f (2 * i + 1)%nat].
Proof.
  intros Hi. unfold row; cbn [ncols buf].
  rewrite skipn_map, firstn_map, skipn_seq.
  replace (0 + i * 2)%nat with (2 * i)%nat by lia.
  destruct (n * 2 - i * 2)%nat as [|[|len]] eqn:E; try lia.
  cbn [seq firstn map]. now replace (S (2 * i)) with (2 * i + 1)%nat by lia.
Qed.

Lemma rows_pairs (f : nat -> float) (n : nat) :
  rows (mkArray2d n 2 (map f (seq 0 (n * 2)))) =
  map (fun i => [f (2 * i)%nat; f (2 * i + 1)%nat]) (seq 0 n).
Proof.
  unfold rows; cbn [nrows]. apply map_ext_in; intros i Hi.
  apply in_seq in Hi. apply row_pair; lia.
Qed.

(** The vectorised norm of the filled array is the per-sample distance. *)
Lemma norm_axis1_pairs (f : nat -> float) (n : nat) :
  np.linalg.norm_axis1 (mkArray2d n 2 (map f (seq 0 (n * 2)))) =
  map (fun i => distance (f (2 * i)%nat, f (2 * i + 1)%nat)) (seq 0 n).
Proof.
  unfold np.linalg.norm_axis1, np.add_reduce_axis1, np.square; cbn [nrows ncols buf].
  rewrite (map_map f (fun v => (v * v)%float)).
  rewrite (rows_pairs (fun i => (f i * f i)%float) n).
  rewrite !map_map. apply map_ext; intros i. reflexivity.
Qed.

Lemma count_true_map {A} (p : A -> bool) (l : list A) :
  length (filter (fun b : bool => b) (map p l)) = length (filter p l).
Proof.
  induction l as [|a l IH]; cbn [map filter]; [reflexivity |].
  destruct (p a); cbn [length]; now rewrite IH.
Qed.

Lemma filter_length_bound {A} (p : A -> bool) (l : list A) :
  (length (filter p l) <= length l)%nat.
Proof.
  induction l as [|a l IH]; cbn [filter length]; [lia |].
  destruct (p a); cbn [length]; lia.
Qed.

Section WorkerFacts.
Context {G : Type} `{BitGenerator G}.

(** What one valid invocation computes, and where it leaves the generator. *)
Lemma worker_valid (n : Z) (g : G) :
  (0 <= n)%Z ->
  worker (PyInt n) g =
    (Return (Z.of_nat (length (filter inside (samples (Z.to_nat n) g)))),
     advance (Z.to_nat n * 2) g).
Proof.
  intros Hn. unfold worker, Gen.bind. rewrite (rand_valid g Hn).
  unfold Gen.ret, np.count_nonzero, np.less.
  rewrite norm_axis1_pairs, map_map.
  rewrite (count_true_map (fun i => (distance (nth_draw g (2 * i), nth_draw g (2 * i + 1)) <? 1)%float)).
  unfold samples.
  f_equal. f_equal. f_equal.
  induction (seq 0 (Z.to_nat n)) as [|i l IH]; cbn [map filter]; [reflexivity |].
  unfold sample at 1, inside at 1.
  destruct (distance _ <? 1)%float; cbn [length]; now rewrite IH.
Qed.

Lemma worker_negative (n : Z) (g : G) :
  (n < 0)%Z -> worker (PyInt n) g = (Raise ValueError, g).
Proof.
  intros Hn. unfold worker, Gen.bind. now rewrite (rand_negative g Hn).
Qed.

Lemma worker_float (f : float) (g : G) :
  worker (PyFloat f) g = (Raise TypeError, g).
Proof. reflexivity. Qed.

(** The vectorised pipeline and the point-by-point loop agree, on the
    count and on the generator they leave behind. *)
Lemma count_inside_loop_spec (n : nat) (g : G) :
  count_inside_loop n g =
    (length (filter inside (samples n g)), advance (n * 2) g).
Proof.
  revert g; induction n as [|n IH]; intros g; [reflexivity |].
  cbn [count_inside_loop].
  destruct (next_double g) as [x g1] eqn:E1.
  destruct (next_double g1) as [y g2] eqn:E2.
  rewrite IH.
  assert (Hg2 : advance 2 g = g2) by (cbn [advance]; rewrite E1; cbn [snd]; now rewrite E2).
  assert (Hs : samples (S n) g = (x, y) :: samples n g2).
  { unfold samples. cbn [seq map]. rewrite <- seq_shift, map_map. f_equal.
    - unfold sample, nth_draw. cbn [Nat.mul Nat.add advance].
      rewrite E1; cbn [snd fst]. rewrite E2. reflexivity.
    - apply map_ext; intros i. unfold sample.
      replace (2 * S i)%nat with (S (S (2 * i))) by lia.
      replace (S (S (2 * i)) + 1)%nat with (S (S (2 * i + 1))) by lia.
      rewrite !nth_draw_S, E1; cbn [snd]. now rewrite E2. }
  rewrite Hs. cbn [filter].
  replace (S n * 2)%nat with (2 + n * 2)%nat by lia.
  rewrite advance_add, Hg2.
  destruct (inside (x, y)); reflexivity.
Qed.
End WorkerFacts.

(** ** The comparison is strict *)

Lemma SFcompare_antisym (x y : spec_float) :
  SFcompare y x = option_map CompOpp (SFcompare x y).
Proof.
  destruct x as [sx|sx| |sx mx ex], y as [sy|sy| |sy my ey]; cbn;
    try destruct sx; try destruct sy; try reflexivity;
    rewrite (Z.compare_antisym ey ex); destruct (ey ?= ex)%Z; cbn;
    try reflexivity;
    rewrite (Pos.compare_cont_antisym mx my Eq); reflexivity.
Qed.

(** [x <= y] excludes [y < x], also when one of them is not a number. *)
Lemma leb_not_ltb (x y : float) :
  (x <=? y)%float = true -> (y <? x)%float = false.
Proof.
  rewrite FloatAxioms.leb_spec, FloatAxioms.ltb_spec. unfold SFleb, SFltb.
  rewrite (SFcompare_antisym (Prim2SF x) (Prim2SF y)).
  destruct (SFcompare (Prim2SF x) (Prim2SF y)) as [[]|]; cbn; congruence.
Qed.

(** A sample at distance [1] or more is outside. *)
Lemma outside_of_unit (p : float * float) :
  (1 <=? distance p)%float = true -> inside p = false.
Proof. unfold inside. apply leb_not_ltb. Qed.

Lemma samples_length {G} `{BitGenerator G} (n : nat) (g : G) :
  length (samples n g) = n.
Proof. unfold samples. now rewrite length_map, length_seq. Qed.

(** Two states, possibly of different generators, whose streams agree on the
    first [2n] draws yield the same samples. *)
Lemma samples_ext {G1 G2} `{BitGenerator G1} `{BitGenerator G2}
      (n : nat) (g1 : G1) (g2 : G2) :
  (forall i, (i < 2 * n)%nat -> nth_draw g1 i = nth_draw g2 i) ->
  samples n g1 = samples n g2.
Proof.
  intros Hd. unfold samples. apply map_ext_in; intros i Hi.
  apply in_seq in Hi. unfold sample. rewrite !Hd by lia. reflexivity.
Qed.

(** Every draw of a stuck source is its value. *)
Lemma fixed_source_draw (s : fixed_source) (i : nat) :
  nth_draw s i = fixed_value s.
Proof.
  revert s; induction i as [|i IH]; intros s; [reflexivity |].
  rewrite nth_draw_S. cbn [next_double fixed_source_gen snd]. now rewrite IH.
Qed.

(** A block of [n] samples that all equal [p]. *)
Lemma samples_constant {G} `{BitGenerator G} (v : float) (n : nat) (g : G) :
  (forall i, nth_draw g i = v) -> samples n g = repeat (v, v) n.
Proof.
  intros Hd. unfold samples.
  transitivity (map (fun _ : nat => (v, v)) (seq 0 n)).
  - apply map_ext; intros i. unfold sample. now rewrite !Hd.
  - now rewrite map_const, length_seq.
Qed.

(** ** Rounding in binary64

    What [SpecFloat]'s operations compute on positive normal numbers, in
    terms of integer division. *)
Section Rounding.
  Local Open Scope Z_scope.

Lemma digits2_bounds (m : positive) :
  2 ^ (Zpos (digits2_pos m) - 1) <= Zpos m < 2 ^ Zpos (digits2_pos m).
Proof.
  induction m as [m IH | m IH |]; cbn [digits2_pos]; [| | cbn; lia].
  all: rewrite Pos2Z.inj_succ;
    replace (Z.succ (Zpos (digits2_pos m)) - 1) with (Z.succ (Zpos (digits2_pos m) - 1)) by lia;
    rewrite !Z.pow_succ_r by lia; lia.
Qed.

Lemma digits2_unique (m : positive) (d : Z) :
  2 ^ (d - 1) <= Zpos m < 2 ^ d -> Zpos (digits2_pos m) = d.
Proof.
  intros [Hlo Hhi]. pose proof (digits2_bounds m) as [Blo Bhi].
  set (d' := Zpos (digits2_pos m)) in *.
  assert (Hd : 0 < d).
  { destruct (Z_lt_le_dec 0 d) as [|Hd]; [assumption | exfalso].
    assert (2 ^ d <= 1); [| lia].
    destruct (Z.eq_dec d 0) as [-> | Hn]; [cbn; lia | rewrite Z.pow_neg_r by lia; lia]. }
  destruct (Z.lt_trichotomy d' d) as [Hc | [Hc | Hc]]; [| exact Hc |].
  - assert (2 ^ d' <= 2 ^ (d - 1)) by (apply Z.pow_le_mono_r; lia). lia.
  - assert (2 ^ d <= 2 ^ (d' - 1)) by (apply Z.pow_le_mono_r; lia). lia.
Qed.

Lemma shr_1_spec (m : Z) (r s : bool) :
  0 <= m ->
  shr_1 (Build_shr_record m r s) = Build_shr_record (Z.div2 m) (Z.odd m) (r || s).
Proof. destruct m as [|[p|p|]|p]; cbn; try reflexivity; lia. Qed.

Lemma shifted_step (M k : Z) (rec : shr_record) :
  0 <= k -> shifted M k rec -> shifted M (k + 1) (shr_1 rec).
Proof.
  intros Hk [Hm Hc]. destruct rec as [m r s]; cbn [shr_m shr_r shr_s] in *.
  rewrite shr_1_spec by assumption.
  pose proof (Z.div2_odd m) as Hdo.
  assert (Hd0 : 0 <= Z.div2 m) by (apply Z.div2_nonneg; assumption).
  split; [exact Hd0 | right]. cbn [shr_m shr_r shr_s].
  split; [lia |].
  destruct Hc as [[-> Hrec] | [Hk1 [t [Ht [HM Hs]]]]].
  - injection Hrec as -> -> ->. exists 0. cbn. repeat split; try lia.
  - exists (Z.b2z r * 2 ^ (k - 1) + t).
    replace (k + 1 - 1) with (Z.succ (k - 1)) by lia.
    replace (k + 1) with (Z.succ (Z.succ (k - 1))) by lia.
    replace k with (Z.succ (k - 1)) in HM at 1 by lia.
    rewrite !Z.pow_succ_r in * by lia.
    assert (0 < 2 ^ (k - 1)) by (apply Z.pow_pos_nonneg; lia).
    repeat split.
    + destruct r; cbn [Z.b2z]; lia.
    + destruct r; cbn [Z.b2z]; lia.
    + rewrite HM. rewrite Hdo at 1. ring.
    + rewrite Hs. destruct r; cbn [Z.b2z orb].
      * symmetry. apply negb_true_iff, Z.eqb_neq. lia.
      * reflexivity.
Qed.

Lemma shifted_iter (M : Z) (p : positive) :
  forall k rec, 0 <= k -> shifted M k rec ->
    shifted M (k + Zpos p) (SpecFloat.iter_pos shr_1 p rec).
Proof.
  induction p as [p IH | p IH |]; intros k rec Hk Hs; cbn [SpecFloat.iter_pos].
  - replace (k + Zpos p~1) with (k + 1 + Zpos p + Zpos p) by lia.
    apply IH; [lia |]. apply IH; [lia |]. now apply shifted_step.
  - replace (k + Zpos p~0) with (k + Zpos p + Zpos p) by lia.
    apply IH; [lia |]. now apply IH.
  - now apply shifted_step.
Qed.

(** What [n >= 1] shifts of an exact [M >= 0] leave: the quotient, and the
    position of the remainder against one half. *)
Lemma shr_exact (M : Z) (p : positive) :
  0 <= M ->
  let rec := SpecFloat.iter_pos shr_1 p (Build_shr_record M false false) in
  shr_m rec = M / 2 ^ Zpos p /\
  round_nearest_even (shr_m rec) (loc_of_shr_record rec) = rne M (Zpos p).
Proof.
  intros HM rec.
  assert (Hs : shifted M (0 + Zpos p) rec).
  { apply shifted_iter; [lia |]. split; [assumption | left; split; reflexivity]. }
  destruct Hs as [Hm [[Hk _] | [_ [t [Ht [HMeq Hs]]]]]]; [lia |].
  cbn [Z.add] in *. set (n := Zpos p) in *.
  assert (Hpow : 2 ^ n = 2 * 2 ^ (n - 1)).
  { replace n with (Z.succ (n - 1)) at 1 by lia. rewrite Z.pow_succ_r; lia. }
  assert (Hpos : 0 < 2 ^ (n - 1)) by (apply Z.pow_pos_nonneg; lia).
  destruct rec as [m r s]; cbn [shr_m shr_r shr_s] in *.
  assert (Hq : M / 2 ^ n = m).
  { symmetry. apply (Z.div_unique M (2 ^ n) m (Z.b2z r * 2 ^ (n - 1) + t)).
    - left. destruct r; cbn [Z.b2z]; lia.
    - rewrite HMeq. ring. }
  assert (Hr : M mod 2 ^ n = Z.b2z r * 2 ^ (n - 1) + t).
  { symmetry. apply (Z.mod_unique M (2 ^ n) m).
    - left. destruct r; cbn [Z.b2z]; lia.
    - rewrite HMeq. ring. }
  split; [now rewrite Hq |].
  unfold rne. rewrite Hq, Hr.
  destruct r, s; cbn [Z.b2z loc_of_shr_record round_nearest_even].
  - symmetry in Hs. apply negb_true_iff, Z.eqb_neq in Hs.
    replace (2 * (1 * 2 ^ (n - 1) + t) ?= 2 ^ n) with Gt; [reflexivity |].
    symmetry. apply Z.compare_gt_iff. lia.
  - symmetry in Hs. apply negb_false_iff, Z.eqb_eq in Hs. subst t.
    replace (2 * (1 * 2 ^ (n - 1) + 0) ?= 2 ^ n) with Eq; [reflexivity |].
    symmetry. apply Z.compare_eq_iff. lia.
  - replace (2 * (0 * 2 ^ (n - 1) + t) ?= 2 ^ n) with Lt; [reflexivity |].
    symmetry. apply Z.compare_lt_iff. lia.
  - replace (2 * (0 * 2 ^ (n - 1) + t) ?= 2 ^ n) with Lt; [reflexivity |].
    symmetry. apply Z.compare_lt_iff. lia.
Qed.

Lemma rne_0 (M : Z) : rne M 0 = M.
Proof. unfold rne. rewrite Z.pow_0_r, Z.mod_1_r, Z.div_1_r. reflexivity. Qed.

Lemma rne_range (M n : Z) :
  0 <= n -> M / 2 ^ n <= rne M n <= M / 2 ^ n + 1.
Proof.
  intros Hn. unfold rne.
  destruct (2 * (M mod 2 ^ n) ?= 2 ^ n); [destruct (Z.even _) | |]; lia.
Qed.

Lemma fexp_normal (e : Z) : -1074 <= e - 53 -> fexp prec emax e = e - 53.
Proof. intros He. unfold fexp, emin, prec, emax. lia. Qed.

Lemma binary_round_aux_exact (sx : bool) (mx : positive) (ex : Z) :
  let d := Zpos (digits2_pos mx) in
  53 <= d -> -1074 <= d + ex - 53 -> d + ex <= 1023 ->
  exists m',
    binary_round_aux prec emax sx (Zpos mx) ex loc_Exact =
      S754_finite sx m' (snd (round53 (Zpos mx) ex d))
    /\ Zpos m' = fst (round53 (Zpos mx) ex d)
    /\ Zpos (digits2_pos m') = 53.
Proof.
  intros d Hd Hlo Hhi.
  pose proof (digits2_bounds mx) as [Blo Bhi]. fold d in Blo, Bhi.
  set (n := d - 53).
  assert (Hn : 0 <= n) by (unfold n; lia).
  assert (Hsplit : 2 ^ d = 2 ^ 53 * 2 ^ n /\ 2 ^ (d - 1) = 2 ^ 52 * 2 ^ n).
  { split; rewrite <- Z.pow_add_r by lia; f_equal; unfold n; lia. }
  destruct Hsplit as [Hd1 Hd2].
  assert (Hpn : 0 < 2 ^ n) by (apply Z.pow_pos_nonneg; lia).
  assert (Hq : 2 ^ 52 <= Zpos mx / 2 ^ n < 2 ^ 53).
  { split.
    - apply Z.div_le_lower_bound; lia.
    - apply Z.div_lt_upper_bound; lia. }
  pose proof (rne_range (Zpos mx) Hn) as Hr.
  (* the first shift *)
  assert (H1 : exists rec,
             shr_fexp prec emax (Zpos mx) ex loc_Exact = (rec, ex + n) /\
             round_nearest_even (shr_m rec) (loc_of_shr_record rec) = rne (Zpos mx) n).
  { unfold shr_fexp. cbn [Zdigits2]. fold d.
    rewrite fexp_normal by lia.
    replace (d + ex - 53 - ex) with n by (unfold n; lia).
    cbn [shr_record_of_loc]. unfold shr.
    destruct n as [|p|p] eqn:En; [| | lia].
    - eexists; split; [f_equal; lia |]. cbn. now rewrite rne_0.
    - eexists; split; [reflexivity |].
      apply (@shr_exact (Zpos mx) p). lia. }
  destruct H1 as [rec [E1 R1]].
  unfold binary_round_aux. rewrite E1, R1.
  unfold round53. fold n.
  set (q := rne (Zpos mx) n) in *.
  destruct (Z.eqb_spec q (2 ^ 53)) as [Eq | Nq]; cbn [fst snd].
  - (* the rounded mantissa carried into a new binade *)
    rewrite Eq. exists (4503599627370496%positive).
    change (2 ^ 53) with (Zpos 9007199254740992).
    unfold shr_fexp. cbn [Zdigits2].
    change (Zpos (digits2_pos 9007199254740992)) with 54.
    rewrite fexp_normal by lia.
    replace (54 + (ex + n) - 53 - (ex + n)) with 1 by lia.
    cbn [shr shr_record_of_loc SpecFloat.iter_pos shr_1 shr_m].
    replace (ex + n + 1 <=? emax - prec) with true
      by (symmetry; apply Z.leb_le; unfold emax, prec, n; lia).
    repeat split.
  - assert (Hq' : 2 ^ 52 <= q < 2 ^ 53) by lia.
    destruct q as [|qp|qp] eqn:Eqp; try lia.
    exists qp.
    assert (Hdq : Zpos (digits2_pos qp) = 53) by (apply digits2_unique; exact Hq').
    unfold shr_fexp. cbn [Zdigits2]. rewrite Hdq.
    rewrite fexp_normal by lia.
    replace (53 + (ex + n) - 53 - (ex + n)) with 0 by lia.
    cbn [shr shr_record_of_loc shr_m].
    replace (ex + n <=? emax - prec) with true
      by (symmetry; apply Z.leb_le; unfold emax, prec, n; lia).
    repeat split; exact Hdq.
Qed.

Lemma rne_exact (M n : Z) : 0 <= n -> M mod 2 ^ n = 0 -> rne M n = M / 2 ^ n.
Proof.
  intros Hn Hr. unfold rne. rewrite Hr.
  assert (0 < 2 ^ n) by (apply Z.pow_pos_nonneg; lia).
  change (2 * 0) with 0.
  destruct (Z.compare_spec 0 (2 ^ n)); [lia | reflexivity | lia].
Qed.

Lemma round53_exponent (M ex d : Z) :
  ex + (d - 53) <= snd (round53 M ex d) <= ex + (d - 53) + 1.
Proof. unfold round53. destruct (_ =? _); cbn [snd]; lia. Qed.

(** A value at most the largest mantissa of a binade does not round out of
    that binade. *)
Lemma round53_binade (M ex d k : Z) :
  2 ^ (d - 1) <= M < 2 ^ d -> 53 <= d -> 0 <= k ->
  M <= (2 ^ 53 - 1) * 2 ^ k ->
  snd (round53 M ex d) <= ex + k.
Proof.
  intros [Blo Bhi] Hd Hk HM.
  set (n := d - 53).
  assert (Hn : 0 <= n) by (unfold n; lia).
  assert (Hd2 : 2 ^ (d - 1) = 2 ^ 52 * 2 ^ n).
  { rewrite <- Z.pow_add_r by lia; f_equal; unfold n; lia. }
  assert (Hpn : 0 < 2 ^ n) by (apply Z.pow_pos_nonneg; lia).
  assert (Hpk : 0 < 2 ^ k) by (apply Z.pow_pos_nonneg; lia).
  assert (Hnk : n <= k).
  { destruct (Z_le_gt_dec n k) as [|Hgt]; [assumption | exfalso].
    assert (2 ^ (k + 1) <= 2 ^ n) by (apply Z.pow_le_mono_r; lia).
    rewrite Z.pow_add_r in * by lia. change (2 ^ 1) with 2 in *.
    change (2 ^ 52) with 4503599627370496 in *.
    change (2 ^ 53) with 9007199254740992 in *. nia. }
  pose proof (round53_exponent M ex d) as He. fold n in He.
  destruct (Z.eq_dec n k) as [Enk | Nnk]; [| lia].
  unfold round53. fold n.
  destruct (Z.eqb_spec (rne M n) (2 ^ 53)) as [Eq | Nq]; cbn [snd]; [exfalso | lia].
  subst k. revert Eq. unfold rne.
  pose proof (Z.div_mod M (2 ^ n)) as Hdm.
  pose proof (Z.mod_pos_bound M (2 ^ n) Hpn) as Hmb.
  set (q := M / 2 ^ n) in *. set (r := M mod 2 ^ n) in *.
  change (2 ^ 53) with 9007199254740992 in *.
  assert (Hq : q <= 9007199254740991) by nia.
  destruct (Z.compare_spec (2 * r) (2 ^ n)) as [Hc | Hc | Hc];
    [destruct (Z.even q) | |]; nia.
Qed.

Lemma pos_iter_xO (m n : positive) :
  Zpos (Pos.iter xO m n) = Zpos m * 2 ^ Zpos n.
Proof.
  induction n as [|n IH] using Pos.peano_ind.
  - cbn [Pos.iter]. rewrite Pos2Z.inj_xO. change (2 ^ 1) with 2. lia.
  - rewrite Pos.iter_succ, Pos2Z.inj_xO, IH, Pos2Z.inj_succ, Z.pow_succ_r by lia. ring.
Qed.

(** A mantissa that already has 53 digits is left alone. *)
Lemma binary_round_aux_id (sx : bool) (mx : positive) (ex : Z) :
  Zpos (digits2_pos mx) = 53 -> -1074 <= ex -> ex <= 970 ->
  binary_round_aux prec emax sx (Zpos mx) ex loc_Exact = S754_finite sx mx ex.
Proof.
  intros Hd Hlo Hhi.
  destruct (@binary_round_aux_exact sx mx ex) as [m' [E [Hm _]]]; try lia.
  rewrite E, Hd in *. unfold round53 in *.
  replace (53 - 53) with 0 in * by lia. rewrite rne_0 in *.
  pose proof (digits2_bounds mx) as [_ Bhi]. rewrite Hd in Bhi.
  destruct (Z.eqb_spec (Zpos mx) (2 ^ 53)) as [Eq | Nq]; [lia |].
  cbn [fst snd] in *. injection Hm as ->. f_equal. lia.
Qed.

(** Normalising [k * 2^e] when [k] fits the mantissa is exact. *)
Lemma binary_normalize_fits (k e d : Z) :
  2 ^ (d - 1) <= k < 2 ^ d -> 1 <= d <= 53 ->
  -1074 <= d + e - 53 -> d + e <= 1023 ->
  exists m,
    binary_normalize prec emax k e false = S754_finite false m (e + d - 53)
    /\ Zpos m = k * 2 ^ (53 - d)
    /\ Zpos (digits2_pos m) = 53.
Proof.
  intros Hk Hd Hlo Hhi.
  assert (Hkpos : 0 < k).
  { assert (0 < 2 ^ (d - 1)) by (apply Z.pow_pos_nonneg; lia). lia. }
  destruct k as [|p|p]; try lia.
  cbn [binary_normalize]. unfold binary_round.
  rewrite (@digits2_unique p d Hk), fexp_normal by lia.
  unfold shl_align. replace (d + e - 53 - e) with (d - 53) by lia.
  destruct (d - 53) as [|q|q] eqn:Eq; try lia.
  - assert (d = 53) by lia. subst d.
    rewrite binary_round_aux_id by (try apply digits2_unique; lia || assumption).
    exists p. replace (e + 53 - 53) with e by lia.
    change (2 ^ (53 - 53)) with 1. repeat split; [lia | now apply digits2_unique].
  - assert (Hs : 53 - d = Zpos q) by lia.
    assert (HM : Zpos (Pos.iter xO p q) = Zpos p * 2 ^ (53 - d))
      by (rewrite Hs; apply pos_iter_xO).
    assert (HdM : Zpos (digits2_pos (Pos.iter xO p q)) = 53).
    { apply digits2_unique. rewrite HM.
      assert (Hp1 : 2 ^ 53 = 2 ^ d * 2 ^ (53 - d))
        by (rewrite <- Z.pow_add_r by lia; f_equal; lia).
      assert (Hp2 : 2 ^ (53 - 1) = 2 ^ (d - 1) * 2 ^ (53 - d))
        by (rewrite <- Z.pow_add_r by lia; f_equal; lia).
      rewrite Hp1, Hp2.
      assert (0 < 2 ^ (53 - d)) by (apply Z.pow_pos_nonneg; lia). nia. }
    rewrite binary_round_aux_id by (assumption || lia).
    exists (Pos.iter xO p q). replace (e + d - 53) with (d + e - 53) by lia.
    repeat split; assumption.
Qed.

(** A mantissa [m * 2^n] with [m] of 53 digits rounds to [m], exactly. *)
Lemma binary_round_aux_shifted (sx : bool) (mx m : positive) (ex n : Z) :
  Zpos mx = Zpos m * 2 ^ n -> 0 <= n ->
  Zpos (digits2_pos m) = 53 ->
  -1074 <= ex + n -> ex + n <= 970 ->
  binary_round_aux prec emax sx (Zpos mx) ex loc_Exact = S754_finite sx m (ex + n).
Proof.
  intros HM Hn Hdm Hlo Hhi.
  pose proof (digits2_bounds m) as Bm. rewrite Hdm in Bm.
  assert (Hpn : 0 < 2 ^ n) by (apply Z.pow_pos_nonneg; lia).
  assert (Hdx : Zpos (digits2_pos mx) = 53 + n).
  { apply digits2_unique. rewrite HM.
    replace (53 + n - 1) with (52 + n) by lia.
    rewrite !Z.pow_add_r by lia.
    change (2 ^ (53 - 1)) with (2 ^ 52) in Bm. nia. }
  destruct (@binary_round_aux_exact sx mx ex) as [m' [E [Hm' _]]]; try lia.
  rewrite E. rewrite Hdx in *. unfold round53 in *.
  replace (53 + n - 53) with n in * by lia.
  assert (Hr : rne (Zpos mx) n = Zpos m).
  { rewrite rne_exact; [| lia | rewrite HM; apply Z.mod_mul; lia].
    rewrite HM. apply Z.div_mul. lia. }
  rewrite Hr in *.
  destruct (Z.eqb_spec (Zpos m) (2 ^ 53)) as [Eq | Nq]; [lia |].
  cbn [fst snd] in *. injection Hm' as ->. reflexivity.
Qed.

Lemma binary_round_shifted (sx : bool) (mx m : positive) (ex n : Z) :
  Zpos mx = Zpos m * 2 ^ n -> 0 <= n ->
  Zpos (digits2_pos m) = 53 ->
  -1074 <= ex + n -> ex + n <= 970 ->
  binary_round prec emax sx mx ex = S754_finite sx m (ex + n).
Proof.
  intros HM Hn Hdm Hlo Hhi.
  pose proof (digits2_bounds m) as Bm. rewrite Hdm in Bm.
  assert (Hpn : 0 < 2 ^ n) by (apply Z.pow_pos_nonneg; lia).
  assert (Hdx : Zpos (digits2_pos mx) = 53 + n).
  { apply digits2_unique. rewrite HM.
    replace (53 + n - 1) with (52 + n) by lia.
    rewrite !Z.pow_add_r by lia.
    change (2 ^ (53 - 1)) with (2 ^ 52) in Bm. nia. }
  unfold binary_round. rewrite Hdx, fexp_normal by lia.
  unfold shl_align. replace (53 + n + ex - 53 - ex) with n by lia.
  destruct n as [|p|p] eqn:En; try lia.
  - now apply binary_round_aux_shifted.
  - now apply binary_round_aux_shifted.
Qed.

Lemma dyadic_pos (k e : Z) :
  0 < k < 2 ^ 53 -> -1000 <= e <= 900 ->
  exists m d,
    dyadic k e = S754_finite false m (e + d - 53)
    /\ Zpos m = k * 2 ^ (53 - d)
    /\ Zpos (digits2_pos m) = 53
    /\ 1 <= d <= 53
    /\ 2 ^ (d - 1) <= k < 2 ^ d.
Proof.
  intros Hk He.
  pose proof (Z.log2_spec k (proj1 Hk)) as Hl.
  pose proof (Z.log2_nonneg k) as Hl0.
  assert (Hl53 : Z.log2 k < 53) by (apply Z.log2_lt_pow2; lia).
  set (d := Z.log2 k + 1).
  assert (Hkd : 2 ^ (d - 1) <= k < 2 ^ d).
  { unfold d. replace (Z.log2 k + 1 - 1) with (Z.log2 k) by lia.
    replace (Z.log2 k + 1) with (Z.succ (Z.log2 k)) by lia. exact Hl. }
  destruct (@binary_normalize_fits k e d Hkd) as [m [E [Hm Hdm]]]; try (unfold d; lia).
  exists m, d. unfold dyadic.
  split; [exact E | split; [exact Hm | split; [exact Hdm | split; [unfold d; lia | exact Hkd]]]].
Qed.

Lemma pow2_digits_shift (k d j : Z) :
  0 <= j -> 1 <= d -> 2 ^ (d - 1) <= k < 2 ^ d ->
  2 ^ (d + j - 1) <= k * 2 ^ j < 2 ^ (d + j).
Proof.
  intros Hj Hd Hk.
  replace (d + j - 1) with (d - 1 + j) by lia.
  rewrite !Z.pow_add_r by lia.
  assert (0 < 2 ^ j) by (apply Z.pow_pos_nonneg; lia). nia.
Qed.

Lemma pow2_digits_unique (k d d' : Z) :
  2 ^ (d - 1) <= k < 2 ^ d -> 2 ^ (d' - 1) <= k < 2 ^ d' -> 1 <= d -> 1 <= d' -> d = d'.
Proof.
  intros [Hlo Hhi] [Hlo' Hhi'] Hd Hd'.
  destruct (Z.lt_trichotomy d d') as [Hc | [Hc | Hc]]; [| exact Hc |]; exfalso.
  - assert (2 ^ d <= 2 ^ (d' - 1)) by (apply Z.pow_le_mono_r; lia). lia.
  - assert (2 ^ d' <= 2 ^ (d - 1)) by (apply Z.pow_le_mono_r; lia). lia.
Qed.

(** [dyadic k e0] is the float [(m, e)] as soon as [m] has 53 digits and
    [m * 2^e = k * 2^e0]. *)
Lemma dyadic_eq (k e0 : Z) (m : positive) (e : Z) :
  0 < k < 2 ^ 53 -> -1000 <= e0 <= 900 ->
  Zpos (digits2_pos m) = 53 -> e <= e0 -> Zpos m = k * 2 ^ (e0 - e) ->
  dyadic k e0 = S754_finite false m e.
Proof.
  intros Hk He0 Hdm Hle Hm.
  destruct (dyadic_pos Hk He0) as [m' [d [E [Hm' [Hdm' [Hd Hkd]]]]]].
  pose proof (digits2_bounds m) as Bm. rewrite Hdm, Hm in Bm.
  assert (Hj : d + (e0 - e) = 53).
  { apply (@pow2_digits_unique (k * 2 ^ (e0 - e))); try lia.
    apply pow2_digits_shift; lia. }
  rewrite E. f_equal; [| lia].
  apply Pos2Z.inj. rewrite Hm, Hm'. f_equal. f_equal. lia.
Qed.

Lemma SFmul_dyadic_pow26 (k : Z) :
  0 <= k < 2 ^ 53 ->
  SFmul prec emax (dyadic k 0) (S754_finite false 4503599627370496 (-26)) = dyadic k 26.
Proof.
  intros Hk. destruct (Z.eq_dec k 0) as [-> | Hn]; [reflexivity |].
  destruct (@dyadic_pos k 0) as [m [d [E [Hm [Hdm [Hd Hkd]]]]]]; try lia.
  rewrite E. cbn [SFmul xorb].
  rewrite (@binary_round_aux_shifted false _ m _ 52) by lia.
  symmetry. apply dyadic_eq; try lia.
  rewrite Hm. f_equal. f_equal. lia.
Qed.

Lemma SFdiv_dyadic_pow53 (k : Z) :
  0 <= k < 2 ^ 53 ->
  SFdiv prec emax (dyadic k 0) (S754_finite false 4503599627370496 1) = dyadic k (-53).
Proof.
  intros Hk. destruct (Z.eq_dec k 0) as [-> | Hn]; [reflexivity |].
  destruct (@dyadic_pos k 0) as [m [d [E [Hm [Hdm [Hd Hkd]]]]]]; try lia.
  rewrite E. cbn [SFdiv xorb]. unfold SFdiv_core_binary. cbn [Zdigits2].
  rewrite Hdm. change (Zpos (digits2_pos 4503599627370496)) with 53.
  replace (53 + (0 + d - 53) - (53 + 1)) with (d - 54) by lia.
  rewrite fexp_normal by lia.
  replace (Z.min (d - 54 - 53) (0 + d - 53 - 1)) with (d - 107) by lia.
  replace (0 + d - 53 - 1 - (d - 107)) with 53 by lia.
  rewrite Z.shiftl_mul_pow2 by lia.
  assert (Hdiv : Z.div_eucl (Zpos m * 2 ^ 53) 4503599627370496 = (Zpos m * 2, 0)).
  { pose proof (Z.div_eucl_eq (Zpos m * 2 ^ 53) 4503599627370496 ltac:(lia)) as Heq.
    pose proof (Z.mod_pos_bound (Zpos m * 2 ^ 53) 4503599627370496 ltac:(lia)) as Hb.
    unfold Z.modulo in Hb.
    destruct (Z.div_eucl (Zpos m * 2 ^ 53) 4503599627370496) as [q r].
    change (2 ^ 53) with (4503599627370496 * 2) in Heq.
    assert (q = Zpos m * 2) by nia. f_equal; lia. }
  rewrite Hdiv. cbn [Z.mul]. rewrite Pos.mul_comm. cbn [Pos.mul].
  change (new_location 4503599627370496 0) with loc_Exact.
  rewrite (@binary_round_aux_shifted false _ m _ 1) by lia.
  symmetry. apply dyadic_eq; try lia.
  rewrite Hm. f_equal. f_equal. lia.
Qed.

Lemma shl_align_fst (m : positive) (e e' : Z) :
  e' <= e -> Zpos (fst (shl_align m e e')) = Zpos m * 2 ^ (e - e').
Proof.
  intros Hle. unfold shl_align.
  destruct (e' - e) as [|p|p] eqn:E; cbn [fst]; try lia.
  - replace (e - e') with 0 by lia. cbn. lia.
  - rewrite pos_iter_xO. f_equal. f_equal. lia.
Qed.

Lemma SFadd_dyadic (a b : Z) :
  0 <= a < 2 ^ 27 -> 0 <= b < 2 ^ 26 ->
  SFadd prec emax (dyadic a 26) (dyadic b 0) = dyadic (a * 2 ^ 26 + b) 0.
Proof.
  intros Ha Hb.
  change (2 ^ 27) with 134217728 in Ha. change (2 ^ 26) with 67108864 in *.
  destruct (Z.eq_dec a 0) as [-> | Hna].
  { cbn [Z.mul Z.add]. change (dyadic 0 26) with (S754_zero false).
    destruct (Z.eq_dec b 0) as [-> | Hnb]; [reflexivity |].
    destruct (@dyadic_pos b 0) as [m [d [E _]]];
      [change (2 ^ 53) with 9007199254740992; lia | lia |].
    rewrite E. reflexivity. }
  destruct (@dyadic_pos a 26) as [ma [da [Ea [Hma [Hdma [Hda Hka]]]]]];
    [change (2 ^ 53) with 9007199254740992; lia | lia |].
  assert (Hda27 : da <= 27).
  { destruct (Z_le_gt_dec da 27) as [|Hgt]; [assumption | exfalso].
    assert (2 ^ 27 <= 2 ^ (da - 1)) by (apply Z.pow_le_mono_r; lia).
    change (2 ^ 27) with 134217728 in *. lia. }
  destruct (Z.eq_dec b 0) as [-> | Hnb].
  { rewrite Z.add_0_r, Ea. change (dyadic 0 0) with (S754_zero false).
    cbn [SFadd]. symmetry.
    apply dyadic_eq; try (change (2 ^ 53) with 9007199254740992; lia).
    rewrite Hma. replace (53 - da) with (26 + (0 - (26 + da - 53))) by lia.
    rewrite Z.pow_add_r by lia. change (2 ^ 26) with 67108864. ring. }
  destruct (@dyadic_pos b 0) as [mb [db [Eb [Hmb [Hdmb [Hdb Hkb]]]]]];
    [change (2 ^ 53) with 9007199254740992; lia | lia |].
  assert (Hdb26 : db <= 26).
  { destruct (Z_le_gt_dec db 26) as [|Hgt]; [assumption | exfalso].
    assert (2 ^ 26 <= 2 ^ (db - 1)) by (apply Z.pow_le_mono_r; lia).
    change (2 ^ 26) with 67108864 in *. lia. }
  set (K := a * 67108864 + b).
  assert (HK : 0 < K < 2 ^ 53) by (change (2 ^ 53) with 9007199254740992; unfold K; lia).
  destruct (@dyadic_pos K 0 HK) as [mK [dK [EK [HmK [HdmK [HdK HkK]]]]]]; [lia |].
  assert (HdK27 : 27 <= dK).
  { destruct (Z_le_gt_dec 27 dK) as [|Hgt]; [assumption | exfalso].
    assert (2 ^ dK <= 2 ^ 26) by (apply Z.pow_le_mono_r; lia).
    change (2 ^ 26) with 67108864 in *. unfold K in HkK. lia. }
  rewrite Ea, Eb, EK. cbn [SFadd cond_Zopp].
  rewrite Z.min_r by lia.
  pose proof (@shl_align_fst ma (26 + da - 53) (0 + db - 53) ltac:(lia)) as HA.
  pose proof (@shl_align_fst mb (0 + db - 53) (0 + db - 53) ltac:(lia)) as HB.
  set (A := fst (shl_align ma (26 + da - 53) (0 + db - 53))) in *.
  set (B := fst (shl_align mb (0 + db - 53) (0 + db - 53))) in *.
  cbn [Z.add binary_normalize].
  rewrite (@binary_round_shifted false (A + B) mK (db - 53) (dK - db)); try lia.
  - f_equal. lia.
  - rewrite Pos2Z.inj_add, HA, HB, HmK, Hma, Hmb.
    replace (0 + db - 53 - (0 + db - 53)) with 0 by lia.
    replace (26 + da - 53 - (0 + db - 53)) with (26 + (53 - db) - (53 - da)) by lia.
    replace (53 - dK) with (53 - db - (dK - db)) by lia.
    assert (Hp1 : 2 ^ (26 + (53 - db)) = 2 ^ (26 + (53 - db) - (53 - da)) * 2 ^ (53 - da))
      by (rewrite <- Z.pow_add_r by lia; f_equal; lia).
    assert (Hp2 : 2 ^ (53 - db) = 2 ^ (53 - db - (dK - db)) * 2 ^ (dK - db))
      by (rewrite <- Z.pow_add_r by lia; f_equal; lia).
    rewrite Z.pow_add_r in Hp1 by lia. change (2 ^ 26) with 67108864 in Hp1.
    unfold K. change (2 ^ 0) with 1.
    set (P1 := 2 ^ (26 + (53 - db) - (53 - da))) in *.
    set (P2 := 2 ^ (53 - db - (dK - db))) in *.
    set (Pa := 2 ^ (53 - da)) in *. set (Pb := 2 ^ (53 - db)) in *.
    set (Pk := 2 ^ (dK - db)) in *.
    replace (a * Pa * P1) with (a * (P1 * Pa)) by ring.
    rewrite <- Hp1, Hp2. ring.
Qed.

(** Rounding a 53-digit mantissa with what lies beyond it given as a
    location: the mantissa or its successor, renormalised on a carry. *)
Lemma binary_round_aux_53 (sx : bool) (q : positive) (e : Z) (l : location) :
  Zpos (digits2_pos q) = 53 -> -1074 <= e -> e <= 969 ->
  exists m' e',
    binary_round_aux prec emax sx (Zpos q) e l = S754_finite sx m' e'
    /\ Zpos (digits2_pos m') = 53
    /\ ((Zpos m' = round_nearest_even (Zpos q) l /\ e' = e) \/
        (round_nearest_even (Zpos q) l = 2 ^ 53 /\ Zpos m' = 2 ^ 52 /\ e' = e + 1)).
Proof.
  intros Hd Hlo Hhi.
  pose proof (digits2_bounds q) as Bq. rewrite Hd in Bq.
  change (2 ^ (53 - 1)) with (2 ^ 52) in Bq.
  unfold binary_round_aux.
  assert (H1 : shr_fexp prec emax (Zpos q) e l = (shr_record_of_loc (Zpos q) l, e)).
  { unfold shr_fexp. cbn [Zdigits2]. rewrite Hd, fexp_normal by lia.
    replace (53 + e - 53 - e) with 0 by lia. reflexivity. }
  rewrite H1.
  assert (H2 : round_nearest_even (shr_m (shr_record_of_loc (Zpos q) l))
                 (loc_of_shr_record (shr_record_of_loc (Zpos q) l))
               = round_nearest_even (Zpos q) l)
    by (destruct l as [|[]]; reflexivity).
  rewrite H2.
  set (q' := round_nearest_even (Zpos q) l).
  assert (Hq' : Zpos q <= q' <= Zpos q + 1).
  { unfold q'. destruct l as [|[]]; cbn [round_nearest_even];
      try destruct (Z.even _); lia. }
  destruct (Z.eq_dec q' (2 ^ 53)) as [Eq | Nq].
  - exists 4503599627370496%positive, (e + 1). rewrite Eq.
    change (2 ^ 53) with (Zpos 9007199254740992).
    unfold shr_fexp. cbn [Zdigits2].
    change (Zpos (digits2_pos 9007199254740992)) with 54.
    rewrite fexp_normal by lia.
    replace (54 + e - 53 - e) with 1 by lia.
    cbn [shr shr_record_of_loc SpecFloat.iter_pos shr_1 shr_m].
    replace (e + 1 <=? emax - prec) with true
      by (symmetry; apply Z.leb_le; unfold emax, prec; lia).
    split; [reflexivity | split; [reflexivity | right; repeat split]].
  - assert (Hr : 2 ^ 52 <= q' < 2 ^ 53) by lia.
    destruct q' as [|qp|qp] eqn:Eqp; try lia.
    assert (Hdq : Zpos (digits2_pos qp) = 53) by (apply digits2_unique; exact Hr).
    exists qp, e.
    unfold shr_fexp. cbn [Zdigits2]. rewrite Hdq, fexp_normal by lia.
    replace (53 + e - 53 - e) with 0 by lia.
    cbn [shr shr_record_of_loc shr_m].
    replace (e <=? emax - prec) with true
      by (symmetry; apply Z.leb_le; unfold emax, prec; lia).
    split; [reflexivity | split; [reflexivity | left; split; reflexivity]].
Qed.

Lemma below_weaken (lo hi lo' hi' : Z) (x : spec_float) :
  lo' <= lo -> hi <= hi' -> below lo hi x -> below lo' hi' x.
Proof.
  intros Hlo Hhi [-> | [m [e [-> [Hd He]]]]]; [now left | right].
  exists m, e. repeat split; try assumption; lia.
Qed.

Lemma dyadic_below (k : Z) :
  0 <= k < 2 ^ 53 -> below (-105) (-53) (dyadic k (-53)).
Proof.
  intros Hk. destruct (Z.eq_dec k 0) as [-> | Hn]; [now left | right].
  destruct (@dyadic_pos k (-53)) as [m [d [E [_ [Hdm [Hd _]]]]]]; try lia.
  exists m, (-53 + d - 53). repeat split; try assumption; lia.
Qed.

Lemma binary_round_large (sx : bool) (mx : positive) (ex : Z) :
  53 <= Zpos (digits2_pos mx) -> -1074 <= Zpos (digits2_pos mx) + ex - 53 ->
  binary_round prec emax sx mx ex = binary_round_aux prec emax sx (Zpos mx) ex loc_Exact.
Proof.
  intros Hd Hlo. unfold binary_round. rewrite fexp_normal by lia.
  unfold shl_align.
  destruct (Zpos (digits2_pos mx) + ex - 53 - ex) as [|p|p] eqn:E; try lia; reflexivity.
Qed.

Lemma SFmul_square_below (x : spec_float) :
  below (-105) (-53) x -> below (-158) (-53) (SFmul prec emax x x).
Proof.
  intros [-> | [m [e [-> [Hd He]]]]]; [now left | right].
  cbn [SFmul xorb].
  pose proof (digits2_bounds m) as Bm. rewrite Hd in Bm.
  change (2 ^ (53 - 1)) with 4503599627370496 in Bm.
  change (2 ^ 53) with 9007199254740992 in Bm.
  pose proof (digits2_bounds (m * m)) as BM. rewrite Pos2Z.inj_mul in BM.
  set (dM := Zpos (digits2_pos (m * m))) in *.
  assert (HdM : 105 <= dM <= 106).
  { split.
    - destruct (Z_le_gt_dec 105 dM) as [|Hgt]; [assumption | exfalso].
      assert (2 ^ dM <= 2 ^ 104) by (apply Z.pow_le_mono_r; lia).
      change (2 ^ 104) with (4503599627370496 * 4503599627370496) in *. nia.
    - destruct (Z_le_gt_dec dM 106) as [|Hgt]; [assumption | exfalso].
      assert (2 ^ 106 <= 2 ^ (dM - 1)) by (apply Z.pow_le_mono_r; lia).
      change (2 ^ 106) with (9007199254740992 * 9007199254740992) in *. nia. }
  destruct (@binary_round_aux_exact false (m * m) (e + e)) as [m' [E [_ Hd']]];
    fold dM; try lia.
  rewrite E. fold dM. exists m', (snd (round53 (Zpos (m * m)) (e + e) dM)).
  split; [reflexivity | split; [exact Hd' |]].
  pose proof (round53_exponent (Zpos (m * m)) (e + e) dM) as Hlo.
  pose proof (@round53_binade (Zpos (m * m)) (e + e) dM (-53 - (e + e))) as Hhi.
  rewrite Pos2Z.inj_mul in Hhi.
  assert (Hpk : 2 ^ 53 <= 2 ^ (-53 - (e + e))) by (apply Z.pow_le_mono_r; lia).
  change (2 ^ 53) with 9007199254740992 in *.
  rewrite Pos2Z.inj_mul in *.
  assert (Hle : Z.pos m * Z.pos m <= (9007199254740992 - 1) * 2 ^ (-53 - (e + e))) by nia.
  specialize (Hhi BM ltac:(lia) ltac:(lia) Hle). lia.
Qed.

Lemma SFadd_below (a b : spec_float) :
  below (-158) (-53) a -> below (-158) (-53) b ->
  below (-158) (-52) (SFadd prec emax a b).
Proof.
  intros Ha Hb.
  destruct Ha as [-> | [ma [ea [-> [Hda Hea]]]]].
  { destruct Hb as [-> | [mb [eb [-> [Hdb Heb]]]]]; [now left | right].
    exists mb, eb. repeat split; try assumption; lia. }
  destruct Hb as [-> | [mb [eb [-> [Hdb Heb]]]]].
  { right. exists ma, ea. repeat split; try assumption; lia. }
  right. cbn [SFadd cond_Zopp].
  set (ez := Z.min ea eb).
  assert (Hez : ez <= ea /\ ez <= eb /\ -158 <= ez <= -53) by (unfold ez; lia).
  pose proof (@shl_align_fst ma ea ez ltac:(lia)) as HA.
  pose proof (@shl_align_fst mb eb ez ltac:(lia)) as HB.
  set (A := fst (shl_align ma ea ez)) in *.
  set (B := fst (shl_align mb eb ez)) in *.
  cbn [Z.add binary_normalize].
  pose proof (digits2_bounds ma) as Bma. rewrite Hda in Bma.
  pose proof (digits2_bounds mb) as Bmb. rewrite Hdb in Bmb.
  change (2 ^ (53 - 1)) with 4503599627370496 in *.
  change (2 ^ 53) with 9007199254740992 in *.
  assert (Hpa : 1 <= 2 ^ (ea - ez) <= 2 ^ (-53 - ez)).
  { split; [| apply Z.pow_le_mono_r; lia].
    assert (0 < 2 ^ (ea - ez)) by (apply Z.pow_pos_nonneg; lia). lia. }
  assert (Hpb : 1 <= 2 ^ (eb - ez) <= 2 ^ (-53 - ez)).
  { split; [| apply Z.pow_le_mono_r; lia].
    assert (0 < 2 ^ (eb - ez)) by (apply Z.pow_pos_nonneg; lia). lia. }
  assert (Hp2 : 2 ^ (-52 - ez) = 2 * 2 ^ (-53 - ez)).
  { replace (-52 - ez) with (Z.succ (-53 - ez)) by lia. rewrite Z.pow_succ_r; lia. }
  pose proof (digits2_bounds (A + B)) as BM. rewrite Pos2Z.inj_add in BM.
  set (dM := Zpos (digits2_pos (A + B))) in *.
  assert (Hsum : Zpos A + Zpos B <= (9007199254740992 - 1) * 2 ^ (-52 - ez))
    by (rewrite HA, HB, Hp2; nia).
  assert (HdM : 53 <= dM /\ dM + ez <= 1).
  { split.
    - destruct (Z_le_gt_dec 53 dM) as [|Hgt]; [assumption | exfalso].
      assert (2 ^ dM <= 2 ^ 52) by (apply Z.pow_le_mono_r; lia).
      change (2 ^ 52) with 4503599627370496 in *. nia.
    - destruct (Z_le_gt_dec (dM + ez) 1) as [|Hgt]; [assumption | exfalso].
      assert (2 ^ (1 - ez) <= 2 ^ (dM - 1)) by (apply Z.pow_le_mono_r; lia).
      replace (1 - ez) with (Z.succ (-52 - ez) + 52) in * by lia.
      rewrite Z.pow_add_r, Z.pow_succ_r in * by lia.
      change (2 ^ 52) with 4503599627370496 in *. nia. }
  rewrite binary_round_large by (fold dM; lia).
  destruct (@binary_round_aux_exact false (A + B) ez) as [m' [E [_ Hd']]];
    fold dM; try lia.
  rewrite E. fold dM. exists m', (snd (round53 (Zpos (A + B)) ez dM)).
  split; [reflexivity | split; [exact Hd' |]].
  pose proof (round53_exponent (Zpos (A + B)) ez dM) as Hlo.
  pose proof (@round53_binade (Zpos (A + B)) ez dM (-52 - ez)) as Hhi.
  rewrite Pos2Z.inj_add in *.
  specialize (Hhi BM ltac:(lia) ltac:(lia) Hsum). lia.
Qed.

Lemma SFsqrt_below (s : spec_float) :
  below (-158) (-52) s -> below_sqrt2 (SFsqrt prec emax s).
Proof.
  intros [-> | [m [e [-> [Hd He]]]]]; [now left | right].
  cbn [SFsqrt]. unfold SFsqrt_core_binary. cbn [Zdigits2]. rewrite Hd.
  pose proof (digits2_bounds m) as Bm. rewrite Hd in Bm.
  change (2 ^ (53 - 1)) with 4503599627370496 in Bm.
  change (2 ^ 53) with 9007199254740992 in Bm.
  set (h := Z.div2 e).
  assert (Hh : e = 2 * h + Z.b2z (Z.odd e)) by apply Z.div2_odd.
  assert (Hh27 : Z.div2 (53 + e + 1) = h + 27).
  { unfold h. rewrite !Z.div2_div.
    replace (53 + e + 1) with (27 * 2 + e) by lia.
    rewrite Z.div_add_l by lia. lia. }
  rewrite Hh27.
  assert (Hb : 0 <= Z.b2z (Z.odd e) <= 1) by (destruct (Z.odd e); cbn; lia).
  rewrite fexp_normal by lia.
  replace (Z.min (h + 27 - 53) h) with (h - 26) by lia.
  set (sh := e - 2 * (h - 26)).
  assert (Hsh : sh = 52 \/ sh = 53) by (unfold sh; lia).
  assert (Hm' : match sh with
                | 0 => Z.pos m
                | Z.pos _ => Z.shiftl (Z.pos m) sh
                | Z.neg _ => 0
                end = Zpos m * 2 ^ sh).
  { destruct Hsh as [-> | ->]; rewrite Z.shiftl_mul_pow2 by lia; reflexivity. }
  rewrite Hm'.
  assert (HM : 2 ^ 104 <= Zpos m * 2 ^ sh < 2 ^ 106).
  { destruct Hsh as [-> | ->].
    - change (2 ^ 104) with (4503599627370496 * 2 ^ 52).
      change (2 ^ 106) with (4 * 4503599627370496 * 2 ^ 52).
      change (2 ^ 52) with 4503599627370496. lia.
    - change (2 ^ 104) with (2251799813685248 * 2 ^ 53).
      change (2 ^ 106) with (9007199254740992 * 2 ^ 53).
      change (2 ^ 53) with 9007199254740992. lia. }
  pose proof (Z.sqrtrem_spec (Zpos m * 2 ^ sh) ltac:(lia)) as Hsq.
  destruct (Z.sqrtrem (Zpos m * 2 ^ sh)) as [q r].
  destruct Hsq as [Hsq Hr].
  change (2 ^ 104) with (4503599627370496 * 4503599627370496) in HM.
  change (2 ^ 106) with (9007199254740992 * 9007199254740992) in HM.
  assert (Hq : 4503599627370496 <= q < 9007199254740992) by nia.
  destruct q as [|qp|qp]; try lia.
  assert (Hdq : Zpos (digits2_pos qp) = 53) by (apply digits2_unique; exact Hq).
  set (l := if r =? 0 then loc_Exact else loc_Inexact (if r <=? Z.pos qp then Lt else Gt)).
  destruct (@binary_round_aux_53 false qp (h - 26) l Hdq) as [m' [e' [E [Hd' Hc]]]];
    try lia.
  rewrite E. exists m', e'.
  split; [reflexivity | split; [exact Hd' |]].
  assert (Hrne : Zpos qp <= round_nearest_even (Zpos qp) l <= Zpos qp + 1
                 /\ (round_nearest_even (Zpos qp) l = Zpos qp + 1 -> Zpos qp < r)).
  { unfold l. destruct (Z.eqb_spec r 0); cbn [round_nearest_even]; [lia |].
    destruct (Z.leb_spec r (Zpos qp)); cbn [round_nearest_even]; lia. }
  destruct Hrne as [Hrb Hup].
  change (2 ^ 53) with 9007199254740992 in Hc.
  change (2 ^ 52) with 4503599627370496 in Hc.
  destruct (Z_le_gt_dec h (-27)) as [Hlow | Htop].
  - (* the square root is below one *)
    split; [lia |].
    destruct Hc as [[Hmq ->] | [Hcarry [Hm2 ->]]]; [left; lia |].
    destruct (Z.eq_dec h (-27)) as [-> | Hne]; [right; lia | left; lia].
  - (* the top binade: the argument is in [1, 2) *)
    assert (Hh26 : h = -26) by lia.
    assert (Hs52 : sh = 52) by (unfold sh; lia).
    rewrite Hs52 in *. change (2 ^ 52) with 4503599627370496 in *.
    assert (Hqle : Zpos qp <= 6369051672525772) by nia.
    assert (Hround : round_nearest_even (Zpos qp) l <= 6369051672525772).
    { destruct (Z.eq_dec (round_nearest_even (Zpos qp) l) (Zpos qp + 1)) as [Eup | Nup];
        [| lia].
      specialize (Hup Eup).
      destruct (Z.eq_dec (Zpos qp) 6369051672525772) as [Eq | Nq]; [| lia].
      rewrite Eq in *. lia. }
    split; [lia |].
    destruct Hc as [[Hmq ->] | [Hcarry _]]; [right; lia | lia].
Qed.

Lemma powerRZ_2_pos (e : Z) : (0 < powerRZ 2 e)%R.
Proof. apply powerRZ_lt. lra. Qed.

Lemma powerRZ_2_le (e e' : Z) : e <= e' -> (powerRZ 2 e <= powerRZ 2 e')%R.
Proof.
  intros H.
  replace e' with (e + Z.of_nat (Z.to_nat (e' - e))) by lia.
  rewrite powerRZ_add by lra. rewrite <- pow_powerRZ.
  pose proof (powerRZ_2_pos e) as Hp.
  pose proof (pow_R1_Rle 2 (Z.to_nat (e' - e)) ltac:(lra)) as H1.
  rewrite <- (Rmult_1_r (powerRZ 2 e)) at 1.
  apply Rmult_le_compat_l; lra.
Qed.

Lemma powerRZ_2_neg (p : positive) : (IZR (2 ^ Zpos p) * powerRZ 2 (Zneg p) = 1)%R.
Proof.
  change (2 ^ Zpos p) with (Z.pow_pos 2 p).
  rewrite Zpower_pos_powerRZ.
  rewrite <- powerRZ_add by lra.
  replace (Zpos p + Zneg p) with 0 by lia. reflexivity.
Qed.

Lemma below_value (lo : Z) (x : spec_float) :
  below lo (-53) x -> (0 <= SF2R x < 1)%R.
Proof.
  intros [-> | [m [e [-> [Hd He]]]]]; cbn [SF2R cond_Zopp]; [lra |].
  pose proof (digits2_bounds m) as Bm. rewrite Hd in Bm.
  pose proof (powerRZ_2_pos e) as Hp.
  pose proof (powerRZ_2_le (e:=e) (e':=-53) ltac:(lia)) as Hle.
  pose proof (powerRZ_2_neg 53) as H53.
  assert (Hm0 : (0 < IZR (Zpos m))%R) by (apply IZR_lt; lia).
  assert (Hm1 : (IZR (Zpos m) < IZR (2 ^ 53))%R) by (apply IZR_lt; lia).
  split; [apply Rmult_le_pos; lra |].
  apply Rle_lt_trans with (IZR (Zpos m) * powerRZ 2 (-53))%R.
  - apply Rmult_le_compat_l; lra.
  - rewrite <- H53. apply Rmult_lt_compat_r; [apply powerRZ_2_pos | exact Hm1].
Qed.

Lemma sqrt2_gt_1 : (1 < sqrt 2)%R.
Proof. rewrite <- sqrt_1 at 1. apply sqrt_lt_1; lra. Qed.

Lemma below_sqrt2_value (x : spec_float) :
  below_sqrt2 x -> (0 <= SF2R x < sqrt 2)%R.
Proof.
  intros [-> | [m [e [-> [Hd [Hlo [He | [-> Hm]]]]]]]].
  - cbn [SF2R]. pose proof sqrt2_gt_1. lra.
  - assert (Hb : below (-200) (-53) (S754_finite false m e)).
    { right. exists m, e. repeat split; try assumption; lia. }
    pose proof (below_value Hb) as Hv. pose proof sqrt2_gt_1. lra.
  - cbn [SF2R cond_Zopp].
    pose proof (powerRZ_2_pos (-52)) as Hp.
    pose proof (powerRZ_2_neg 52) as H52.
    assert (Hm0 : (0 < IZR (Zpos m))%R) by (apply IZR_lt; lia).
    assert (Hm1 : (IZR (Zpos m) <= 6369051672525772)%R) by (apply IZR_le; exact Hm).
    change (2 ^ 52) with 4503599627370496 in H52.
    set (u := powerRZ 2 (-52)) in *.
    set (v := IZR (Zpos m)) in *.
    split; [apply Rmult_le_pos; lra |].
    assert (Hvu : (0 <= v * u)%R) by (apply Rmult_le_pos; lra).
    rewrite <- (sqrt_square (v * u) Hvu).
    apply sqrt_lt_1; [nra | lra |].
    assert (Hu : (u = / 4503599627370496)%R) by (apply Rmult_eq_reg_l with 4503599627370496%R; [rewrite H52; field | lra]).
    assert (Hvu2 : (v * u <= 6369051672525772 * u)%R) by (apply Rmult_le_compat_r; lra).
    apply Rle_lt_trans with ((6369051672525772 * u) * (6369051672525772 * u))%R.
    + apply Rmult_le_compat; lra.
    + rewrite Hu. lra.
Qed.

End Rounding.

(** ** What numpy's generator draws *)

Lemma double_of_int_spec (z : Z) :
  (0 <= z < 2 ^ 63)%Z -> Prim2SF (double_of_int z) = dyadic z 0.
Proof.
  intros Hz. unfold double_of_int, dyadic.
  rewrite FloatAxioms.of_uint63_spec, Uint63.of_Z_spec.
  change wB with (2 ^ 63)%Z. now rewrite Z.mod_small.
Qed.

Lemma shifted_word_range (w : Z) (n : Z) :
  (0 <= n <= 32)%Z ->
  (0 <= Z.shiftr (uint32 w) n < 2 ^ (32 - n))%Z.
Proof.
  intros Hn. unfold uint32. rewrite Z.shiftr_div_pow2 by lia.
  pose proof (Z.mod_pos_bound w (2 ^ 32) ltac:(lia)) as Hw.
  assert (Hp : (0 < 2 ^ n)%Z) by (apply Z.pow_pos_nonneg; lia).
  assert (Hs : (2 ^ 32 = 2 ^ (32 - n) * 2 ^ n)%Z)
    by (rewrite <- Z.pow_add_r by lia; f_equal; lia).
  split.
  - apply Z.div_pos; lia.
  - apply Z.div_lt_upper_bound; lia.
Qed.

(** The double built from two words is [k / 2^53] exactly, [k] being the 27
    high bits of the first word followed by the 26 high bits of the second. *)
Lemma double_of_words_exact (wa wb : Z) :
  Prim2SF (double_of_words wa wb) =
  dyadic (Z.shiftr (uint32 wa) 5 * 2 ^ 26 + Z.shiftr (uint32 wb) 6) (-53).
Proof.
  pose proof (@shifted_word_range wa 5 ltac:(lia)) as Ha.
  pose proof (@shifted_word_range wb 6 ltac:(lia)) as Hb.
  change (2 ^ (32 - 5))%Z with (2 ^ 27)%Z in Ha.
  change (2 ^ (32 - 6))%Z with (2 ^ 26)%Z in Hb.
  unfold double_of_words.
  set (a := Z.shiftr (uint32 wa) 5) in *. set (b := Z.shiftr (uint32 wb) 6) in *.
  rewrite FloatAxioms.div_spec, FloatAxioms.add_spec, FloatAxioms.mul_spec.
  rewrite !double_of_int_spec
    by (change (2 ^ 27)%Z with 134217728%Z in Ha;
        change (2 ^ 26)%Z with 67108864%Z in Hb;
        change (2 ^ 63)%Z with 9223372036854775808%Z; lia).
  change (Prim2SF 67108864) with (S754_finite false 4503599627370496 (-26)).
  change (Prim2SF 9007199254740992) with (S754_finite false 4503599627370496 1).
  unfold SF64div, SF64add, SF64mul.
  assert (HK : (0 <= a * 2 ^ 26 + b < 2 ^ 53)%Z).
  { change (2 ^ 27)%Z with 134217728%Z in Ha.
    change (2 ^ 26)%Z with 67108864%Z in *.
    change (2 ^ 53)%Z with 9007199254740992%Z. lia. }
  rewrite SFmul_dyadic_pow26
    by (change (2 ^ 27)%Z with 134217728%Z in Ha;
        change (2 ^ 53)%Z with 9007199254740992%Z; lia).
  rewrite SFadd_dyadic by assumption.
  now rewrite SFdiv_dyadic_pow53.
Qed.

Lemma double_of_words_grid (wa wb : Z) : unit_grid (double_of_words wa wb).
Proof.
  pose proof (@shifted_word_range wa 5 ltac:(lia)) as Ha.
  pose proof (@shifted_word_range wb 6 ltac:(lia)) as Hb.
  eexists; split; [| apply double_of_words_exact].
  change (2 ^ (32 - 5))%Z with 134217728%Z in Ha.
  change (2 ^ (32 - 6))%Z with 67108864%Z in Hb.
  change (2 ^ 26)%Z with 67108864%Z.
  change (2 ^ 53)%Z with 9007199254740992%Z. lia.
Qed.

Lemma mt19937_draw_grid {W} `{WordGenerator W} (s : W) (i : nat) :
  unit_grid (nth_draw s i).
Proof.
  unfold nth_draw. generalize (advance i s); intros s'.
  unfold next_double, mt19937_bitgen, mt19937_next_double.
  destruct (next_uint32 s') as [wa s1]. destruct (next_uint32 s1) as [wb s2].
  apply double_of_words_grid.
Qed.

(** A grid value is a finite number of [[0, 1)]. *)
Lemma unit_grid_range (x : float) :
  unit_grid x -> is_finite x = true /\ (0 <= value x < 1)%R.
Proof.
  intros [k [Hk E]]. pose proof (dyadic_below Hk) as Hb.
  unfold is_finite, value. rewrite E. split.
  - destruct Hb as [-> | [m [e [-> _]]]]; reflexivity.
  - exact (below_value Hb).
Qed.

(** The distance of a grid point is a finite number of [[0, sqrt 2)]. *)
Lemma unit_grid_distance (x y : float) :
  unit_grid x -> unit_grid y -> below_sqrt2 (Prim2SF (distance (x, y))).
Proof.
  intros [kx [Hkx Ex]] [ky [Hky Ey]].
  unfold distance; cbn [fst snd].
  rewrite FloatAxioms.sqrt_spec, FloatAxioms.add_spec, !FloatAxioms.mul_spec, Ex, Ey.
  apply SFsqrt_below, SFadd_below; apply SFmul_square_below, dyadic_below; assumption.
Qed.

Lemma below_sqrt2_range (d : float) :
  below_sqrt2 (Prim2SF d) -> is_finite d = true /\ (0 <= value d < sqrt 2)%R.
Proof.
  intros Hb. unfold is_finite, value. split.
  - destruct Hb as [-> | [m [e [-> _]]]]; reflexivity.
  - exact (below_sqrt2_value Hb).
Qed.

(** The vectorised worker and the point-by-point loop return the same
    count and leave the same generator. *)
Lemma worker_refines_loop {G} `{BitGenerator G} (n : nat) (g : G) :
  worker (PyInt (Z.of_nat n)) g =
    (Return (Z.of_nat (fst (count_inside_loop n g))), snd (count_inside_loop n g)).
Proof.
  rewrite worker_valid by lia. rewrite count_inside_loop_spec, Nat2Z.id.
  reflexivity.
Qed.

(** The distance is the rounded one.  The words [0xffffffff 0xffffffff]
    give [x = (2^53 - 1) / 2^53] and [0x20 0xffffffff] give
    [y = (2^27 - 1) / 2^53]; the point lies inside the unit circle, its
    distance in binary64 is [1.0], and the worker does not count it. *)
Example distance_is_rounded :
  let x := double_of_words 4294967295 4294967295 in
  let y := double_of_words 32 4294967295 in
  Prim2SF x = dyadic (2 ^ 53 - 1) (-53)
  /\ Prim2SF y = dyadic (2 ^ 27 - 1) (-53)
  /\ ((2 ^ 53 - 1) ^ 2 + (2 ^ 27 - 1) ^ 2 < (2 ^ 53) ^ 2)%Z
  /\ distance (x, y) = 1%float
  /\ fst (worker (PyInt 1) (mkWords [4294967295; 4294967295; 32; 4294967295]%Z 0))
     = Return 0%Z.
Proof. repeat split; vm_compute; reflexivity. Qed.

(** * The worker's contract *)

(** C1. For a non-negative [iterations = n] and any stream of draws, the
    worker returns the number of the [n] drawn samples [(x, y)] whose
    distance [sqrt(x*x + y*y)] is strictly below [1]; a sample at distance
    [1] or more is not counted. *)
Theorem worker_counts_samples_inside {G} `{BitGenerator G} (n : Z) (g : G) :
  (0 <= n)%Z ->
  fst (worker (PyInt n) g) =
    Return (Z.of_nat (length (filter inside (samples (Z.to_nat n) g))))
  /\ length (samples (Z.to_nat n) g) = Z.to_nat n
  /\ (forall p, (1 <=? distance p)%float = true -> inside p = false).
Proof.
  intros Hn. rewrite (worker_valid g Hn). split; [| split].
  - reflexivity.
  - apply samples_length.
  - apply outside_of_unit.
Qed.

(** C2. For a non-negative [iterations = n] and any stream of draws, the
    worker returns an integer [r] with [0 <= r <= n]. *)
Theorem worker_result_bounds {G} `{BitGenerator G} (n : Z) (g : G) :
  (0 <= n)%Z ->
  exists r : Z, fst (worker (PyInt n) g) = Return r /\ (0 <= r <= n)%Z.
Proof.
  intros Hn. rewrite (worker_valid g Hn). eexists; split; [reflexivity |].
  pose proof (filter_length_bound inside (samples (Z.to_nat n) g)) as Hb.
  rewrite samples_length in Hb. lia.
Qed.

(** C3. The worker raises an invalid-argument exception exactly when
    [iterations] is a negative integer or a float, in particular at [-1]
    ([ValueError]) and at [2.5] ([TypeError]); it returns for every
    non-negative integer, [0] included. *)
Theorem worker_rejects_exactly_invalid {G} `{BitGenerator G} (g : G) :
  (forall iterations,
      raises_invalid_argument (fst (worker iterations g)) =
      negb (valid_iterations iterations))
  /\ fst (worker (PyInt (-1)) g) = Raise ValueError
  /\ fst (worker (PyFloat 2.5) g) = Raise TypeError
  /\ (forall n, (0 <= n)%Z -> exists r, fst (worker (PyInt n) g) = Return r).
Proof.
  split; [| split; [| split]].
  - intros [n | f]; [| reflexivity]. cbn [valid_iterations].
    destruct (Z.leb_spec 0 n) as [Hn | Hn].
    + now rewrite (worker_valid g Hn).
    + now rewrite (worker_negative g Hn).
  - now rewrite worker_negative by lia.
  - now rewrite worker_float.
  - intros n Hn. rewrite (worker_valid g Hn). eexists; reflexivity.
Qed.

(** C4. [worker 0] returns exactly [0]. *)
Theorem worker_zero {G} `{BitGenerator G} (g : G) :
  fst (worker (PyInt 0) g) = Return 0%Z.
Proof. reflexivity. Qed.

(** C5. Two invocations with the same [iterations] on generators whose
    streams of draws are identical return the same outcome. *)
Theorem worker_deterministic {G1 G2} `{BitGenerator G1} `{BitGenerator G2}
        (iterations : pyobj) (g1 : G1) (g2 : G2) :
  (forall i, nth_draw g1 i = nth_draw g2 i) ->
  fst (worker iterations g1) = fst (worker iterations g2).
Proof.
  intros Hd. destruct iterations as [n | f]; [| reflexivity].
  destruct (Z.leb_spec 0 n) as [Hn | Hn].
  - rewrite (worker_valid g1 Hn), (worker_valid g2 Hn).
    cbn [fst]. now rewrite (samples_ext (Z.to_nat n) g1 g2) by (intros; apply Hd).
  - now rewrite (worker_negative g1 Hn), (worker_negative g2 Hn).
Qed.

(** C6. On a source whose every draw is [0.0], [worker 5] returns [5]; on a
    source whose every draw is [1.0], [worker 5] returns [0]. *)
Theorem worker_degenerate_sources {G} `{BitGenerator G} (g : G) :
  ((forall i, nth_draw g i = 0%float) -> fst (worker (PyInt 5) g) = Return 5%Z)
  /\ ((forall i, nth_draw g i = 1%float) -> fst (worker (PyInt 5) g) = Return 0%Z).
Proof.
  split; intros Hd; rewrite worker_valid by lia; cbn [fst];
    rewrite (samples_constant _ g Hd); reflexivity.
Qed.

(** C7. With [iterations = 0] the worker returns [0] and leaves the
    generator in the state it found it in: nothing is drawn. *)
Theorem worker_zero_draws_nothing {G} `{BitGenerator G} (g : G) :
  worker (PyInt 0) g = (Return 0%Z, g).
Proof. reflexivity. Qed.

(** C8. On an invalid [iterations] (a negative integer or a float) the
    worker raises at once: the outcome is the exception, no count, and the
    generator is in the state it was found in. *)
Theorem worker_invalid_raises_immediately {G} `{BitGenerator G}
        (iterations : pyobj) (g : G) :
  valid_iterations iterations = false ->
  exists e, worker iterations g = (Raise e, g) /\ invalid_argument e = true.
Proof.
  destruct iterations as [n | f]; cbn [valid_iterations]; intros Hv.
  - apply Z.leb_gt in Hv. exists ValueError. now rewrite (worker_negative g Hv).
  - exists TypeError. split; reflexivity.
Qed.

(** C10. Every coordinate numpy's generator draws is a finite number of
    [[0, 1)]: [0.0] occurs (on two words whose high bits are clear), [1.0]
    never; hence the distance computed for every sample is a finite number
    of [[0, sqrt 2)], and a sample with both coordinates [0.0] is inside. *)
Theorem mt19937_coordinates_in_unit_interval {W} `{WordGenerator W} (s : W) (i : nat) :
  (is_finite (nth_draw s i) = true /\ (0 <= value (nth_draw s i) < 1)%R)
  /\ nth_draw s i <> 1%float
  /\ (double_of_words 0 0 = 0%float /\ nth_draw zero_words 0 = 0%float)
  /\ (is_finite (distance (sample s i)) = true
      /\ (0 <= value (distance (sample s i)) < sqrt 2)%R)
  /\ inside (0%float, 0%float) = true.
Proof.
  pose proof (mt19937_draw_grid s i) as Hg.
  split; [exact (unit_grid_range Hg) |].
  split.
  { intros E. destruct Hg as [k [Hk Ek]]. rewrite E in Ek.
    change (Prim2SF 1) with (S754_finite false 4503599627370496 (-52)) in Ek.
    destruct (dyadic_below Hk) as [Hz | [m [e [Hf [_ He]]]]];
      rewrite <- Ek in *; [discriminate Hz |].
    injection Hf as _ He'. lia. }
  split; [split; reflexivity |].
  split; [| reflexivity].
  apply below_sqrt2_range, unit_grid_distance; apply mt19937_draw_grid.
Qed.

(** ** The contract at concrete inputs *)

Lemma worker_counts_samples_inside_witness :
  (0 <= 3)%Z /\
  (fst (worker (PyInt 3) demo_tape) =
     Return (Z.of_nat (length (filter inside (samples (Z.to_nat 3) demo_tape))))
   /\ length (samples (Z.to_nat 3) demo_tape) = Z.to_nat 3
   /\ (forall p, (1 <=? distance p)%float = true -> inside p = false)).
Proof.
  split; [lia | apply (@worker_counts_samples_inside _ _ 3%Z demo_tape); lia].
Defined.

Lemma worker_result_bounds_witness :
  (0 <= 3)%Z /\
  exists r : Z, fst (worker (PyInt 3) demo_tape) = Return r /\ (0 <= r <= 3)%Z.
Proof.
  split; [lia | apply (@worker_result_bounds _ _ 3%Z demo_tape); lia].
Defined.

Lemma worker_rejects_exactly_invalid_witness :
  (0 <= 4)%Z /\ exists r, fst (worker (PyInt 4) demo_tape) = Return r.
Proof.
  split; [lia |].
  apply (proj2 (proj2 (proj2 (worker_rejects_exactly_invalid demo_tape)))); lia.
Defined.

Lemma worker_deterministic_witness :
  (forall i, nth_draw (mkFixed 0.5 0) i = nth_draw (mkFixed 0.5 7) i) /\
  fst (worker (PyInt 3) (mkFixed 0.5 0)) = fst (worker (PyInt 3) (mkFixed 0.5 7)).
Proof.
  assert (Hd : forall i, nth_draw (mkFixed 0.5 0) i = nth_draw (mkFixed 0.5 7) i)
    by (intros i; rewrite !fixed_source_draw; reflexivity).
  split; [exact Hd | apply (worker_deterministic (PyInt 3) _ _ Hd)].
Defined.

Lemma worker_degenerate_sources_witness :
  fst (worker (PyInt 5) (mkFixed 0 0)) = Return 5%Z /\
  fst (worker (PyInt 5) (mkFixed 1 0)) = Return 0%Z.
Proof.
  split.
  - apply (proj1 (worker_degenerate_sources (mkFixed 0 0))).
    intros i; apply fixed_source_draw.
  - apply (proj2 (worker_degenerate_sources (mkFixed 1 0))).
    intros i; apply fixed_source_draw.
Defined.

Lemma worker_invalid_raises_immediately_witness :
  valid_iterations (PyInt (-1)) = false /\
  exists e, worker (PyInt (-1)) demo_tape = (Raise e, demo_tape)
            /\ invalid_argument e = true.
Proof.
  split; [reflexivity |].
  apply (@worker_invalid_raises_immediately _ _ (PyInt (-1)) demo_tape); reflexivity.
Defined.
